(** * MessageToken: the token/claim/message ledger of a chat room

    A shallow embedding of the Solidity contract [MessageToken]
    (pragma solidity ^0.4.8) together with theorems about its balances,
    its claim schedule, its message log and its owner-only setting.

    Conventions of the embedding:
    - a [uint256] is a [Z] in [0, 2^256); [+], [-] and [*] of the
      compiler version in use are unchecked and wrap around, which is
      written out with [uadd], [usub] and [umul];
    - a [mapping (address => T)] is a [gmap] read with the default value
      of [T] (a key that was never written reads as zero);
    - the ambient [this], [msg.sender] and [block.number] are passed
      explicitly in a [ctx];
    - a call either returns ([Ok]) or throws ([Throw]); a call that throws
      leaves the stored state as it was before the call, so only [Ok]
      carries a state. *)

From Stdlib Require Import ZArith Lia.
From stdpp Require Import base option gmap fin_maps strings list.

Local Open Scope Z_scope.

(** ** Machine integers *)

Module Word.

Definition modulus : Z := 2 ^ 256.

Definition wrap (z : Z) : Z := z mod modulus.

Definition uadd (a b : Z) : Z := wrap (a + b).
Definition usub (a b : Z) : Z := wrap (a - b).
Definition umul (a b : Z) : Z := wrap (a * b).

(** [is_uint z]: [z] is a value of type [uint256]. *)
Definition is_uint (z : Z) : Prop := 0 <= z < modulus.

End Word.
Import Word.

(** ** Outcome of a call *)

Inductive fault : Type :=
  | RequireFailed     (* a [require(..)] whose condition is false *)
  | AssertFailed      (* an [assert(..)] whose condition is false *)
  | DivisionByZero.   (* [a / 0], on which the compiled code throws *)

Inductive result (A : Type) : Type :=
  | Ok (a : A)
  | Throw (e : fault).
Arguments Ok {A} a.
Arguments Throw {A} e.

Definition bind {A B : Type} (r : result A) (k : A -> result B) : result B :=
  match r with
  | Ok a => k a
  | Throw e => Throw e
  end.

Notation "'let!' x ':=' r 'in' k" := (bind r (fun x => k))
  (at level 10, x name, r at level 100, k at level 200).

Definition require (b : bool) : result unit :=
  if b then Ok tt else Throw RequireFailed.

Definition assert (b : bool) : result unit :=
  if b then Ok tt else Throw AssertFailed.

Definition succeeded {A : Type} (r : result A) : bool :=
  match r with Ok _ => true | Throw _ => false end.

(** ** SafeMath *)

(** Modelled from the spec: SafeMath.sol ("the math-safety mixin") is
    imported by the contract but is not part of the sources.  The contract
    uses two of its functions: [sub], a subtraction that refuses to go
    below zero, and [div], the floor division of the claim schedule.  A
    division by zero throws, as every division does in this version of the
    language. *)
Module SafeMath.

Definition sub (a b : Z) : result Z :=
  let! _ := assert (b <=? a) in Ok (a - b).

Definition div (a b : Z) : result Z :=
  if b =? 0 then Throw DivisionByZero else Ok (a / b).

End SafeMath.

(** ** Storage *)

Definition address : Type := N.

(** Modelled from the spec: the [Transfer] event of BaseToken.sol, which
    is not part of the sources. *)
Inductive event : Type :=
  | Transfer (from to : address) (value : Z).

(** Modelled from the spec: [balances], [totalSupply] and the [Transfer]
    event are declared in BaseToken.sol, which is not part of the sources;
    they are the per-account balances (the contract's own balance, the
    reserve, is the entry of the contract's address), the total supply and
    the record of a movement of tokens.  All other fields are the state
    variables of MessageToken itself, in the order of the source. *)
Record state : Type := mkState {
  balances : gmap address Z;
  totalSupply : Z;
  name : string;
  decimals : Z;
  symbol : string;
  version : string;
  owner : address;
  dailyTokens : Z;
  tokensPerMessage : Z;
  lastClaimed : gmap address Z;
  messageHistory : gmap address (list Z);
  blocksPerClaim : Z;
  ipfsHash : string;
  latestMessage : string;
  (* the events emitted so far, oldest first *)
  events : list event
}.

(** What a call sees of its environment. *)
Record ctx : Type := mkCtx {
  this : address;          (* the address of the contract itself *)
  msg_sender : address;
  block_number : Z
}.

(** Reading a mapping: an absent key reads as the zero of its type. *)
Definition rd (m : gmap address Z) (a : address) : Z := default 0 (m !! a).

Definition rd_list (m : gmap address (list Z)) (a : address) : list Z :=
  default [] (m !! a).

(** The storage right after deployment: the state variables carry their
    initialisers, everything else is zero.  No function of the contract is
    named after the contract, so nothing runs at creation. *)
Definition deployed : state :=
  {| balances := ∅; totalSupply := 0;
     name := ""; decimals := 0; symbol := ""; version := "MSG";
     owner := 0%N;
     dailyTokens := 12; tokensPerMessage := 3;
     lastClaimed := ∅; messageHistory := ∅;
     blocksPerClaim := 100;
     ipfsHash := ""; latestMessage := "";
     events := [] |}.

(** Field updates. *)
Definition set_balances (b : gmap address Z) (s : state) : state :=
  mkState b (totalSupply s) (name s) (decimals s) (symbol s) (version s)
    (owner s) (dailyTokens s) (tokensPerMessage s) (lastClaimed s)
    (messageHistory s) (blocksPerClaim s) (ipfsHash s) (latestMessage s)
    (events s).

Definition set_lastClaimed (l : gmap address Z) (s : state) : state :=
  mkState (balances s) (totalSupply s) (name s) (decimals s) (symbol s)
    (version s) (owner s) (dailyTokens s) (tokensPerMessage s) l
    (messageHistory s) (blocksPerClaim s) (ipfsHash s) (latestMessage s)
    (events s).

Definition set_messageHistory (h : gmap address (list Z)) (s : state) : state :=
  mkState (balances s) (totalSupply s) (name s) (decimals s) (symbol s)
    (version s) (owner s) (dailyTokens s) (tokensPerMessage s)
    (lastClaimed s) h (blocksPerClaim s) (ipfsHash s) (latestMessage s)
    (events s).

Definition set_blocksPerClaim (n : Z) (s : state) : state :=
  mkState (balances s) (totalSupply s) (name s) (decimals s) (symbol s)
    (version s) (owner s) (dailyTokens s) (tokensPerMessage s)
    (lastClaimed s) (messageHistory s) n (ipfsHash s) (latestMessage s)
    (events s).

Definition set_ipfsHash (h : string) (s : state) : state :=
  mkState (balances s) (totalSupply s) (name s) (decimals s) (symbol s)
    (version s) (owner s) (dailyTokens s) (tokensPerMessage s)
    (lastClaimed s) (messageHistory s) (blocksPerClaim s) h
    (latestMessage s) (events s).

Definition set_latestMessage (m : string) (s : state) : state :=
  mkState (balances s) (totalSupply s) (name s) (decimals s) (symbol s)
    (version s) (owner s) (dailyTokens s) (tokensPerMessage s)
    (lastClaimed s) (messageHistory s) (blocksPerClaim s) (ipfsHash s) m
    (events s).

Definition emit (e : event) (s : state) : state :=
  mkState (balances s) (totalSupply s) (name s) (decimals s) (symbol s)
    (version s) (owner s) (dailyTokens s) (tokensPerMessage s)
    (lastClaimed s) (messageHistory s) (blocksPerClaim s) (ipfsHash s)
    (latestMessage s) (events s ++ [e]).

(** ** The contract *)

Module MessageToken.

(** [function UsableToken(uint256, string, uint8, string) public]:
    an ordinary public function (the contract is called MessageToken). *)
Definition UsableToken (c : ctx) (s : state)
    (_initialAmount : Z) (_tokenName : string)
    (_decimalUnits : Z) (_tokenSymbol : string) : result state :=
  Ok (mkState (<[this c := _initialAmount]> (balances s)) _initialAmount
        _tokenName _decimalUnits _tokenSymbol (version s)
        (msg_sender c) (dailyTokens s) (tokensPerMessage s)
        (lastClaimed s) (messageHistory s) (blocksPerClaim s)
        (ipfsHash s) (latestMessage s) (events s)).

Definition changeBlocksPerClaim (c : ctx) (s : state) (newBPC : Z)
    : result state :=
  let! _ := require (bool_decide (msg_sender c = owner s)) in
  Ok (set_blocksPerClaim newBPC s).

(** [block.number - lastClaimed[addr] - 1], as the machine computes it. *)
Definition blockDiff (c : ctx) (s : state) (addr : address) : Z :=
  usub (usub (block_number c) (rd (lastClaimed s) addr)) 1.

Definition getBlocksTillClaimable (c : ctx) (s : state) (addr : address)
    : result Z :=
  if rd (lastClaimed s) addr =? 0 then Ok 0
  else
    if blockDiff c s addr <? blocksPerClaim s
    then SafeMath.sub (blocksPerClaim s) (blockDiff c s addr)
    else Ok 0.

Definition getLastClaimedBlock (s : state) (addr : address) : Z :=
  rd (lastClaimed s) addr.

Definition getMessageHistory (s : state) (addr : address) : list Z :=
  rd_list (messageHistory s) addr.

Definition getBlocksPerClaim (s : state) : Z := blocksPerClaim s.
Definition getTokensPerMessage (s : state) : Z := tokensPerMessage s.
Definition getDailyTokensNo (s : state) : Z := dailyTokens s.

(** Modelled from the spec: [balanceOf] is declared in BaseToken.sol,
    which is not part of the sources; it reads the balance of an
    account and never fails. *)
Definition balanceOf (s : state) (addr : address) : Z :=
  rd (balances s) addr.

Definition getClaimableTokens (c : ctx) (s : state) (addr : address)
    : result Z :=
  if rd (lastClaimed s) addr =? 0 then Ok (dailyTokens s)
  else
    let! multiples := SafeMath.div (blockDiff c s addr) (blocksPerClaim s) in
    Ok (umul multiples (dailyTokens s)).

Definition claim (c : ctx) (s : state) : result (bool * state) :=
  if blockDiff c s (msg_sender c) <? blocksPerClaim s then Ok (false, s)
  else
    let! value := getClaimableTokens c s (msg_sender c) in
    let s1 := set_lastClaimed
                (<[msg_sender c := usub (block_number c) 1]> (lastClaimed s)) s in
    let s2 := set_balances
                (<[msg_sender c := uadd (rd (balances s1) (msg_sender c)) value]>
                   (balances s1)) s1 in
    let s3 := set_balances
                (<[this c := usub (rd (balances s2) (this c)) value]>
                   (balances s2)) s2 in
    Ok (true, emit (Transfer (this c) (msg_sender c) value) s3).

Definition sendMessage (c : ctx) (s : state) (message : string)
    : result state :=
  let! _ := require (tokensPerMessage s <=? rd (balances s) (msg_sender c)) in
  let s1 := set_messageHistory
              (<[msg_sender c :=
                   rd_list (messageHistory s) (msg_sender c)
                     ++ [usub (block_number c) 1]]> (messageHistory s)) s in
  let s2 := set_balances
              (<[msg_sender c :=
                   usub (rd (balances s1) (msg_sender c)) (tokensPerMessage s1)]>
                 (balances s1)) s1 in
  let s3 := set_balances
              (<[this c := uadd (rd (balances s2) (this c)) (tokensPerMessage s2)]>
                 (balances s2)) s2 in
  Ok (set_latestMessage message s3).

Definition getMessage (s : state) : string := latestMessage s.

Definition sendHash (c : ctx) (s : state) (_hash : string) : result state :=
  Ok (set_ipfsHash _hash s).

Definition getHash (s : state) : string := ipfsHash s.

End MessageToken.
Import MessageToken.

(** ** Calls and reachable states *)

(** The state-changing functions of the contract, as a caller invokes
    them. *)
Inductive call : Type :=
  | CallUsableToken (_initialAmount : Z) (_tokenName : string)
                    (_decimalUnits : Z) (_tokenSymbol : string)
  | CallChangeBlocksPerClaim (newBPC : Z)
  | CallClaim
  | CallSendMessage (message : string)
  | CallSendHash (_hash : string).

(** The arguments of a call are values of their types. *)
Definition valid_call (op : call) : Prop :=
  match op with
  | CallUsableToken a _ d _ => is_uint a /\ 0 <= d < 256
  | CallChangeBlocksPerClaim n => is_uint n
  | _ => True
  end.

Definition exec (c : ctx) (s : state) (op : call) : result state :=
  match op with
  | CallUsableToken a n d y => UsableToken c s a n d y
  | CallChangeBlocksPerClaim n => changeBlocksPerClaim c s n
  | CallClaim => let! r := claim c s in Ok (snd r)
  | CallSendMessage m => sendMessage c s m
  | CallSendHash h => sendHash c s h
  end.

(** The states the contract deployed at address [self] can be in: the
    storage after deployment, and whatever a call that returns makes of
    a reachable state. *)
Inductive reachable (self : address) : state -> Prop :=
  | reachable_deployed : reachable self deployed
  | reachable_call s s' sender height op :
      reachable self s ->
      is_uint height ->
      valid_call op ->
      exec (mkCtx self sender height) s op = Ok s' ->
      reachable self s'.

(** ** Sums of balances *)

(** The sum of the balances of every account of the mapping, the
    contract's own (the reserve) included. *)
Definition sum_balances (m : gmap address Z) : Z :=
  map_fold (fun _ v acc => v + acc) 0 m.

Definition reserveBalance (c : ctx) (s : state) : Z :=
  rd (balances s) (this c).

(** The sum of the balances of all accounts other than the contract. *)
Definition accounts_sum (c : ctx) (s : state) : Z :=
  sum_balances (delete (this c) (balances s)).

(** Every stored integer is a value of its type. *)
Definition all_uint (m : gmap address Z) : Prop :=
  map_Forall (fun _ v => is_uint v) m.

Definition wf_state (s : state) : Prop :=
  all_uint (balances s) /\
  all_uint (lastClaimed s) /\
  is_uint (totalSupply s) /\
  is_uint (dailyTokens s) /\
  is_uint (tokensPerMessage s) /\
  is_uint (blocksPerClaim s).

#[global] Instance is_uint_dec (z : Z) : Decision (is_uint z).
Proof. unfold is_uint. apply _. Defined.

#[global] Instance all_uint_dec (m : gmap address Z) : Decision (all_uint m).
Proof. unfold all_uint. apply _. Defined.

#[global] Instance wf_state_dec (s : state) : Decision (wf_state s).
Proof. unfold wf_state. apply _. Defined.

(** The state the chain stores once a call is over: the new one when the
    call returned, the old one when it threw. *)
Definition commit {A : Type} (s : state) (r : result A) (st : A -> state) : state :=
  match r with
  | Ok a => st a
  | Throw _ => s
  end.

(** The same call, seen at another block height. *)
Definition at_height (c : ctx) (h : Z) : ctx :=
  mkCtx (this c) (msg_sender c) h.

(** ** A room used in the examples *)

Module Room.

Definition self : address := 1000%N.
Definition alice : address := 1%N.
Definition bob : address := 2%N.

(** The state after [op] was called in [s]. *)
Definition after (sender : address) (height : Z) (op : call) (s : state) : state :=
  commit s (exec (mkCtx self sender height) s op) id.

(** alice calls [UsableToken] with 1000 tokens, resp. with 5 tokens. *)
Definition funded : state :=
  after alice 10 (CallUsableToken 1000 "room" 0 "MSG") deployed.

Definition underfunded : state :=
  after alice 10 (CallUsableToken 5 "room" 0 "MSG") deployed.

(** bob claims at height 200. *)
Definition funded_claimed : state := after bob 200 CallClaim funded.

Definition underfunded_claimed : state := after bob 200 CallClaim underfunded.

(** bob then sends a message at height 201. *)
Definition funded_sent : state :=
  after bob 201 (CallSendMessage "Qm1") funded_claimed.

(** alice sets the cooldown to zero, then bob claims at height 6. *)
Definition no_cooldown : state :=
  after alice 5 (CallChangeBlocksPerClaim 0) funded.

Definition no_cooldown_claimed : state := after bob 6 CallClaim no_cooldown.

(** bob calls [UsableToken] after alice did. *)
Definition taken_over : state :=
  after bob 20 (CallUsableToken 0 "" 0 "") funded.

End Room.

(** * Lemmas *)

Lemma modulus_pos : 0 < modulus.
Proof. reflexivity. Qed.

Lemma wrap_range z : is_uint (wrap z).
Proof. apply Z.mod_pos_bound, modulus_pos. Qed.

Lemma rd_uint (m : gmap address Z) a : all_uint m -> is_uint (rd m a).
Proof.
  intros H. unfold rd. destruct (m !! a) as [v|] eqn:E; simpl.
  - eauto.
  - split; [lia | apply modulus_pos].
Qed.

Lemma sum_balances_insert (m : gmap address Z) k v :
  sum_balances (<[k:=v]> m) = sum_balances m - rd m k + v.
Proof.
  unfold sum_balances, rd.
  assert (Hc : forall (n : gmap address Z) (j1 j2 : address) (z1 z2 y : Z),
             j1 <> j2 -> n !! j1 = Some z1 -> n !! j2 = Some z2 ->
             z1 + (z2 + y) = z2 + (z1 + y)) by (intros; lia).
  destruct (m !! k) as [x|] eqn:E; simpl.
  - rewrite (map_fold_delete_L _ _ k x m (Hc m) E).
    rewrite <- (insert_delete_eq m k v).
    rewrite map_fold_insert_L; [lia | apply Hc | apply lookup_delete_eq].
  - rewrite map_fold_insert_L; [lia | apply Hc | exact E].
Qed.

Lemma sum_balances_split (m : gmap address Z) k :
  sum_balances m = sum_balances (delete k m) + rd m k.
Proof.
  unfold sum_balances, rd.
  destruct (m !! k) as [x|] eqn:E; simpl.
  - rewrite (map_fold_delete_L _ _ k x m); [lia | intros; lia | exact E].
  - rewrite delete_id by exact E. lia.
Qed.

(** The accounts and the reserve together are the whole mapping. *)
Lemma ledger_total c s :
  accounts_sum c s + reserveBalance c s = sum_balances (balances s).
Proof.
  unfold accounts_sum, reserveBalance.
  by rewrite (sum_balances_split (balances s) (this c)).
Qed.

(** ** Wrap-around arithmetic of block numbers *)

Lemma usub_exact a b : is_uint a -> is_uint b -> b <= a -> usub a b = a - b.
Proof.
  unfold usub, wrap, is_uint. intros Ha Hb Hle.
  apply Z.mod_small. lia.
Qed.

Lemma uadd_exact a b :
  is_uint a -> is_uint b -> a + b < modulus -> uadd a b = a + b.
Proof.
  unfold uadd, wrap, is_uint. intros Ha Hb Hlt.
  apply Z.mod_small. lia.
Qed.

(** Past the block recorded for an account, the machine's difference is
    the plain one. *)
Lemma blockDiff_exact c s a :
  is_uint (block_number c) ->
  0 <= rd (lastClaimed s) a < block_number c ->
  blockDiff c s a = block_number c - rd (lastClaimed s) a - 1.
Proof.
  unfold blockDiff, usub, wrap, is_uint. intros Hh Hl.
  rewrite Zminus_mod_idemp_l. apply Z.mod_small. lia.
Qed.

Lemma blockDiff_range c s a : 0 <= blockDiff c s a < modulus.
Proof. apply wrap_range. Qed.

(** The difference seen at height [h2] by an account whose claim was
    recorded at height [h1] (as [h1 - 1], wrapped). *)
Lemma usub_after_claim h1 h2 :
  is_uint h1 -> is_uint h2 -> h1 <= h2 ->
  usub (usub h2 (usub h1 1)) 1 = h2 - h1.
Proof.
  unfold usub, wrap, is_uint. intros H1 H2 Hle.
  rewrite Zminus_mod_idemp_l.
  replace (h2 - (h1 - 1) mod modulus - 1)
    with ((h2 - 1) - (h1 - 1) mod modulus) by lia.
  rewrite Zminus_mod_idemp_r.
  replace (h2 - 1 - (h1 - 1)) with (h2 - h1) by lia.
  apply Z.mod_small. lia.
Qed.

(** ** What the calls leave alone *)

Lemma rd_insert_eq (m : gmap address Z) k v : rd (<[k:=v]> m) k = v.
Proof. unfold rd. by rewrite lookup_insert_eq. Qed.

Lemma rd_insert_ne (m : gmap address Z) k j v :
  k <> j -> rd (<[k:=v]> m) j = rd m j.
Proof. intros H. unfold rd. by rewrite lookup_insert_ne. Qed.

(** [claim] takes its early exit exactly when the gate says so. *)
Lemma claim_gate_closed c s :
  blockDiff c s (msg_sender c) < blocksPerClaim s ->
  claim c s = Ok (false, s).
Proof.
  intros H. unfold claim.
  destruct (Z.ltb_spec (blockDiff c s (msg_sender c)) (blocksPerClaim s)); [done | lia].
Qed.

Lemma claim_gate_open c s :
  blocksPerClaim s <= blockDiff c s (msg_sender c) ->
  claim c s =
    (let! value := getClaimableTokens c s (msg_sender c) in
     let s1 := set_lastClaimed
                 (<[msg_sender c := usub (block_number c) 1]> (lastClaimed s)) s in
     let s2 := set_balances
                 (<[msg_sender c := uadd (rd (balances s1) (msg_sender c)) value]>
                    (balances s1)) s1 in
     let s3 := set_balances
                 (<[this c := usub (rd (balances s2) (this c)) value]>
                    (balances s2)) s2 in
     Ok (true, emit (Transfer (this c) (msg_sender c) value) s3)).
Proof.
  intros H. unfold claim.
  destruct (Z.ltb_spec (blockDiff c s (msg_sender c)) (blocksPerClaim s)); [lia | done].
Qed.

(** A claim that returns [true] records [block.number - 1] for the caller
    and leaves the settings alone. *)
Lemma claim_true_inv c s s' :
  claim c s = Ok (true, s') ->
  rd (lastClaimed s') (msg_sender c) = usub (block_number c) 1 /\
  blocksPerClaim s' = blocksPerClaim s /\
  dailyTokens s' = dailyTokens s /\
  tokensPerMessage s' = tokensPerMessage s /\
  owner s' = owner s /\
  totalSupply s' = totalSupply s.
Proof.
  unfold claim.
  destruct (blockDiff c s (msg_sender c) <? blocksPerClaim s); [discriminate|].
  destruct (getClaimableTokens c s (msg_sender c)) as [value|e]; simpl; [|discriminate].
  intros [= <-]. simpl. rewrite rd_insert_eq. done.
Qed.

(** * The cooldown gate of [claim] (C5) *)

(** C5. Whenever [block.number - lastClaimed[caller] - 1], as the machine
    computes it, is below [blocksPerClaim], [claim] returns [false]
    (it does not throw) and the state is the one it was called in; past
    the recorded block the machine's difference is the plain integer
    one.  In particular a second [claim] by the same caller, fewer than
    [blocksPerClaim] blocks after one that returned [true], returns
    [false] with the state, hence every balance and every claim height,
    unchanged. *)
Theorem claim_refused_during_cooldown (c : ctx) (s : state) :
  (blockDiff c s (msg_sender c) < blocksPerClaim s ->
   claim c s = Ok (false, s) /\
   commit s (claim c s) snd = s) /\
  (is_uint (block_number c) ->
   0 <= rd (lastClaimed s) (msg_sender c) < block_number c ->
   block_number c - rd (lastClaimed s) (msg_sender c) - 1 < blocksPerClaim s ->
   claim c s = Ok (false, s)) /\
  (forall (c' : ctx) (s' : state),
     claim c s = Ok (true, s') ->
     msg_sender c' = msg_sender c ->
     is_uint (block_number c) -> is_uint (block_number c') ->
     block_number c <= block_number c' ->
     block_number c' - block_number c < blocksPerClaim s' ->
     claim c' s' = Ok (false, s') /\
     balances (commit s' (claim c' s') snd) = balances s' /\
     lastClaimed (commit s' (claim c' s') snd) = lastClaimed s').
Proof.
  split; [|split].
  - intros H. rewrite (claim_gate_closed c s H). done.
  - intros Hh Hl Hlt. apply claim_gate_closed.
    rewrite blockDiff_exact; done.
  - intros c' s' Hclaim Hsender Hh Hh' Hle Hlt.
    destruct (claim_true_inv c s s' Hclaim) as (Hlast & _).
    assert (Hgate : claim c' s' = Ok (false, s')).
    { apply claim_gate_closed. unfold blockDiff.
      rewrite Hsender, Hlast, usub_after_claim; done. }
    rewrite Hgate. done.
Qed.

Lemma claim_refused_during_cooldown_witness :
  claim (mkCtx Room.self Room.bob 250) Room.funded_claimed
    = Ok (false, Room.funded_claimed) /\
  balances (commit Room.funded_claimed
              (claim (mkCtx Room.self Room.bob 250) Room.funded_claimed) snd)
    = balances Room.funded_claimed /\
  lastClaimed (commit Room.funded_claimed
                 (claim (mkCtx Room.self Room.bob 250) Room.funded_claimed) snd)
    = lastClaimed Room.funded_claimed.
Proof.
  destruct (claim_refused_during_cooldown
              (mkCtx Room.self Room.bob 200) Room.funded) as (_ & _ & H).
  apply (H (mkCtx Room.self Room.bob 250) Room.funded_claimed).
  - vm_compute. reflexivity.
  - reflexivity.
  - vm_compute. split; [discriminate | reflexivity].
  - vm_compute. split; [discriminate | reflexivity].
  - vm_compute. discriminate.
  - vm_compute. reflexivity.
Defined.

(** * Blocks left before the next claim (C7) *)

(** [getBlocksTillClaimable] never throws: its guarded subtraction is
    always within range. *)
Lemma getBlocksTillClaimable_eq c s a :
  getBlocksTillClaimable c s a =
    Ok (if rd (lastClaimed s) a =? 0 then 0
        else Z.max 0 (blocksPerClaim s - blockDiff c s a)).
Proof.
  unfold getBlocksTillClaimable, SafeMath.sub, assert.
  destruct (rd (lastClaimed s) a =? 0); [done|].
  destruct (Z.ltb_spec (blockDiff c s a) (blocksPerClaim s)) as [Hlt|Hge].
  - destruct (Z.leb_spec (blockDiff c s a) (blocksPerClaim s)); [|lia].
    simpl. f_equal. lia.
  - f_equal. lia.
Qed.

Lemma blockDiff_at_height c s a h :
  is_uint h -> 0 <= rd (lastClaimed s) a < h ->
  blockDiff (at_height c h) s a = h - rd (lastClaimed s) a - 1.
Proof. intros Hh Hl. by rewrite blockDiff_exact. Qed.

(** C7. [getBlocksTillClaimable] returns 0 for an account that never
    claimed (recorded height 0); otherwise it returns
    [max(0, blocksPerClaim - (block.number - lastClaimed - 1))], the
    difference being the plain integer one at every height past the
    recorded one.  As the height advances past the recorded one the value
    never increases, it is 0 at height [lastClaimed + blocksPerClaim + 1]
    and positive at every height before it. *)
Theorem getBlocksTillClaimable_spec (c : ctx) (s : state) (a : address)
    (Hl : is_uint (rd (lastClaimed s) a)) :
  (rd (lastClaimed s) a = 0 -> getBlocksTillClaimable c s a = Ok 0) /\
  (rd (lastClaimed s) a <> 0 ->
   getBlocksTillClaimable c s a
     = Ok (Z.max 0 (blocksPerClaim s - blockDiff c s a))) /\
  (rd (lastClaimed s) a <> 0 ->
   is_uint (block_number c) -> rd (lastClaimed s) a < block_number c ->
   getBlocksTillClaimable c s a
     = Ok (Z.max 0 (blocksPerClaim s
                    - (block_number c - rd (lastClaimed s) a - 1)))) /\
  (forall h1 h2 : Z,
     is_uint h1 -> is_uint h2 ->
     rd (lastClaimed s) a < h1 -> h1 <= h2 ->
     exists n1 n2 : Z,
       getBlocksTillClaimable (at_height c h1) s a = Ok n1 /\
       getBlocksTillClaimable (at_height c h2) s a = Ok n2 /\
       n2 <= n1) /\
  (rd (lastClaimed s) a <> 0 ->
   is_uint (rd (lastClaimed s) a + blocksPerClaim s + 1) ->
   0 <= blocksPerClaim s ->
   getBlocksTillClaimable
     (at_height c (rd (lastClaimed s) a + blocksPerClaim s + 1)) s a = Ok 0 /\
   forall h : Z,
     rd (lastClaimed s) a < h < rd (lastClaimed s) a + blocksPerClaim s + 1 ->
     exists n : Z,
       getBlocksTillClaimable (at_height c h) s a = Ok n /\ 0 < n).
Proof.
  destruct Hl as [Hl0 Hl1].
  repeat split.
  - intros H0. rewrite getBlocksTillClaimable_eq, H0. done.
  - intros Hne. rewrite getBlocksTillClaimable_eq.
    destruct (Z.eqb_spec (rd (lastClaimed s) a) 0); [lia | done].
  - intros Hne Hh Hlt. rewrite getBlocksTillClaimable_eq.
    destruct (Z.eqb_spec (rd (lastClaimed s) a) 0); [lia|].
    rewrite blockDiff_exact by (done || lia). done.
  - intros h1 h2 Hh1 Hh2 Hlt Hle.
    rewrite !getBlocksTillClaimable_eq.
    rewrite !blockDiff_at_height by (done || lia).
    eexists _, _. split; [reflexivity|]. split; [reflexivity|].
    destruct (rd (lastClaimed s) a =? 0); lia.
  - rewrite getBlocksTillClaimable_eq.
    rewrite blockDiff_at_height by (done || lia).
    f_equal. destruct (rd (lastClaimed s) a =? 0); lia.
  - intros h Hh. rewrite getBlocksTillClaimable_eq.
    rewrite blockDiff_at_height by (unfold is_uint in *; lia).
    destruct (Z.eqb_spec (rd (lastClaimed s) a) 0); [lia|].
    eexists. split; [reflexivity | lia].
Qed.

Lemma getBlocksTillClaimable_spec_witness :
  getBlocksTillClaimable (mkCtx Room.self Room.bob 250) Room.funded_claimed Room.bob
    = Ok (Z.max 0 (100 - (250 - 199 - 1))) /\
  getBlocksTillClaimable (mkCtx Room.self Room.bob 300) Room.funded_claimed Room.bob
    = Ok 0.
Proof.
  assert (Hl : is_uint (rd (lastClaimed Room.funded_claimed) Room.bob)).
  { vm_compute. split; [discriminate | reflexivity]. }
  destruct (getBlocksTillClaimable_spec
              (mkCtx Room.self Room.bob 250) Room.funded_claimed Room.bob Hl)
    as (_ & _ & Hformula & _ & Hzero).
  split.
  - apply Hformula.
    + vm_compute. discriminate.
    + vm_compute. split; [discriminate | reflexivity].
    + vm_compute. reflexivity.
  - apply Hzero.
    + vm_compute. discriminate.
    + vm_compute. split; [discriminate | reflexivity].
    + vm_compute. discriminate.
Defined.

(** * The room content pointer (C9) *)

(** C9. [sendHash] returns for every caller, at every height and for every
    string, whatever the caller's balance and whoever the owner is; the
    new state has the given string as its [ipfsHash] (what [getHash]
    returns) and every other state variable as before: balances, claim
    heights, message histories, the latest message, the settings, the
    owner and the supply. *)
Theorem sendHash_frame (c : ctx) (s : state) (_hash : string) :
  exists s' : state,
    sendHash c s _hash = Ok s' /\
    getHash s' = _hash /\
    balances s' = balances s /\
    lastClaimed s' = lastClaimed s /\
    messageHistory s' = messageHistory s /\
    getMessage s' = getMessage s /\
    dailyTokens s' = dailyTokens s /\
    tokensPerMessage s' = tokensPerMessage s /\
    blocksPerClaim s' = blocksPerClaim s /\
    owner s' = owner s /\
    totalSupply s' = totalSupply s /\
    name s' = name s /\ decimals s' = decimals s /\
    symbol s' = symbol s /\ version s' = version s /\
    events s' = events s.
Proof.
  exists (set_ipfsHash _hash s). unfold sendHash. repeat split.
Qed.

(** * Sending a message (C6) *)

Lemma sendMessage_poor c s message :
  rd (balances s) (msg_sender c) < tokensPerMessage s ->
  sendMessage c s message = Throw RequireFailed.
Proof.
  intros H. unfold sendMessage, require.
  destruct (Z.leb_spec (tokensPerMessage s) (rd (balances s) (msg_sender c))); [lia | done].
Qed.

Lemma sendMessage_paid c s message :
  tokensPerMessage s <= rd (balances s) (msg_sender c) ->
  sendMessage c s message =
    Ok (set_latestMessage message
         (set_balances
            (<[this c :=
                 uadd (rd (<[msg_sender c :=
                               usub (rd (balances s) (msg_sender c))
                                    (tokensPerMessage s)]> (balances s))
                          (this c))
                      (tokensPerMessage s)]>
               (<[msg_sender c :=
                    usub (rd (balances s) (msg_sender c)) (tokensPerMessage s)]>
                  (balances s)))
            (set_messageHistory
               (<[msg_sender c :=
                    rd_list (messageHistory s) (msg_sender c)
                      ++ [usub (block_number c) 1]]> (messageHistory s)) s))).
Proof.
  intros H. unfold sendMessage, require.
  destruct (Z.leb_spec (tokensPerMessage s) (rd (balances s) (msg_sender c))); [done | lia].
Qed.

(** C6. A caller (an account other than the contract itself) whose balance
    is below [tokensPerMessage] makes [sendMessage] throw at its
    [require], which leaves the state, hence all balances and histories,
    as it was.  Otherwise [sendMessage] returns; it has appended
    [block.number - 1] to the caller's history, taken exactly
    [tokensPerMessage] from the caller's balance, added [tokensPerMessage]
    to the reserve (in 256-bit arithmetic; exactly, whenever the reserve
    has room for it) and stored the given string as the latest message. *)
Theorem sendMessage_spec (c : ctx) (s : state) (message : string)
    (Hwf : wf_state s) (Hh : is_uint (block_number c))
    (Hcaller : msg_sender c <> this c) :
  (balanceOf s (msg_sender c) < tokensPerMessage s ->
   sendMessage c s message = Throw RequireFailed /\
   commit s (sendMessage c s message) id = s) /\
  (tokensPerMessage s <= balanceOf s (msg_sender c) ->
   exists s' : state,
     sendMessage c s message = Ok s' /\
     getMessageHistory s' (msg_sender c)
       = getMessageHistory s (msg_sender c) ++ [usub (block_number c) 1] /\
     (1 <= block_number c ->
      getMessageHistory s' (msg_sender c)
        = getMessageHistory s (msg_sender c) ++ [block_number c - 1]) /\
     balanceOf s' (msg_sender c)
       = balanceOf s (msg_sender c) - tokensPerMessage s /\
     balanceOf s' (this c) = uadd (balanceOf s (this c)) (tokensPerMessage s) /\
     (balanceOf s (this c) + tokensPerMessage s < modulus ->
      balanceOf s' (this c) = balanceOf s (this c) + tokensPerMessage s) /\
     (forall a : address,
        a <> msg_sender c -> a <> this c -> balanceOf s' a = balanceOf s a) /\
     (forall a : address,
        a <> msg_sender c -> getMessageHistory s' a = getMessageHistory s a) /\
     getMessage s' = message).
Proof.
  unfold balanceOf, getMessageHistory, getMessage.
  destruct Hwf as (Hbal & _ & _ & _ & Ht & _).
  pose proof (rd_uint (balances s) (msg_sender c) Hbal) as Hb.
  pose proof (rd_uint (balances s) (this c) Hbal) as Hr.
  split.
  - intros Hlt. rewrite (sendMessage_poor c s message Hlt). done.
  - intros Hle. rewrite (sendMessage_paid c s message Hle).
    eexists. split; [reflexivity|]. simpl.
    assert (Hhist : forall h,
      rd_list (<[msg_sender c := h]> (messageHistory s)) (msg_sender c) = h).
    { intros h. unfold rd_list. by rewrite lookup_insert_eq. }
    rewrite Hhist.
    rewrite (rd_insert_ne _ (this c) (msg_sender c)) by done.
    rewrite rd_insert_eq.
    rewrite (rd_insert_ne _ (msg_sender c) (this c)) by done.
    rewrite rd_insert_eq.
    repeat split.
    + intros H1. rewrite usub_exact; [done | done | | lia].
      split; [lia | apply modulus_pos].
    + apply usub_exact; done.
    + intros Hroom. apply uadd_exact; done.
    + intros a Ha1 Ha2. rewrite !rd_insert_ne by done. done.
    + intros a Ha. unfold rd_list. by rewrite lookup_insert_ne.
Qed.

Lemma sendMessage_spec_witness :
  exists s' : state,
    sendMessage (mkCtx Room.self Room.bob 201) Room.funded_claimed "Qm1" = Ok s' /\
    getMessageHistory s' Room.bob = [200] /\
    balanceOf s' Room.bob = 9 /\
    balanceOf s' Room.self = 991.
Proof.
  assert (Hwf : wf_state Room.funded_claimed).
  { apply (bool_decide_unpack _). vm_compute. exact I. }
  assert (Hh : is_uint (block_number (mkCtx Room.self Room.bob 201))).
  { vm_compute. split; [discriminate | reflexivity]. }
  assert (Hcaller : msg_sender (mkCtx Room.self Room.bob 201)
                    <> this (mkCtx Room.self Room.bob 201)).
  { vm_compute. discriminate. }
  destruct (sendMessage_spec (mkCtx Room.self Room.bob 201)
              Room.funded_claimed "Qm1" Hwf Hh Hcaller) as [_ Hpaid].
  destruct Hpaid as (s' & Hs' & _ & Hhist & Hbob & _ & Hres & _).
  { vm_compute. discriminate. }
  cbn [msg_sender this block_number] in Hhist, Hbob, Hres.
  exists s'. split; [exact Hs'|]. split; [|split].
  - rewrite Hhist; [reflexivity | vm_compute; discriminate].
  - rewrite Hbob. reflexivity.
  - rewrite Hres; [reflexivity | vm_compute; reflexivity].
Defined.

(** * Conservation of the balances modulo 2^256 (C10) *)

(** Crediting one entry and debiting another by the same amount, each with
    its own wrap-around, leaves the sum where it was modulo 2^256. *)
Lemma wrap_credit_debit (S a b v : Z) :
  wrap (S - a + wrap (a + v) - b + wrap (b - v)) = wrap S.
Proof.
  unfold wrap.
  assert (HM : modulus <> 0) by discriminate.
  rewrite (Z.mod_eq (a + v) modulus HM), (Z.mod_eq (b - v) modulus HM).
  replace (S - a + (a + v - modulus * ((a + v) / modulus)) - b
           + (b - v - modulus * ((b - v) / modulus)))
    with (S + (- ((a + v) / modulus) - (b - v) / modulus) * modulus) by ring.
  apply Z_mod_plus_full.
Qed.

Lemma wrap_debit_credit (S a b v : Z) :
  wrap (S - a + wrap (a - v) - b + wrap (b + v)) = wrap S.
Proof.
  replace (a - v) with (a + - v) by ring.
  replace (b + v) with (b - - v) by ring.
  apply wrap_credit_debit.
Qed.

(** C10. Every [claim] that returns and every [sendMessage] that returns
    leaves the sum of all balances of the mapping (the contract's own
    entry, the reserve, included) unchanged modulo 2^256, whatever the
    state, the caller and the height, and also when a single update wraps
    around: a [claim] that returns [true] writes
    [balances[caller] + value] and then [balances[this] - value], both
    wrapped, where [value] is the grant; [sendMessage] writes
    [balances[caller] - tokensPerMessage] and then
    [balances[this] + tokensPerMessage], both wrapped. *)
Theorem balances_sum_preserved_mod (c : ctx) (s : state) :
  (forall (ok : bool) (s' : state),
     claim c s = Ok (ok, s') ->
     wrap (sum_balances (balances s')) = wrap (sum_balances (balances s))) /\
  (forall s' : state,
     claim c s = Ok (true, s') ->
     exists value : Z,
       getClaimableTokens c s (msg_sender c) = Ok value /\
       let credited :=
         <[msg_sender c := uadd (rd (balances s) (msg_sender c)) value]>
           (balances s) in
       balances s' = <[this c := usub (rd credited (this c)) value]> credited) /\
  (forall (message : string) (s' : state),
     sendMessage c s message = Ok s' ->
     wrap (sum_balances (balances s')) = wrap (sum_balances (balances s)) /\
     let debited :=
       <[msg_sender c := usub (rd (balances s) (msg_sender c)) (tokensPerMessage s)]>
         (balances s) in
     balances s'
       = <[this c := uadd (rd debited (this c)) (tokensPerMessage s)]> debited).
Proof.
  split; [|split].
  - intros ok s'. unfold claim.
    destruct (blockDiff c s (msg_sender c) <? blocksPerClaim s).
    { intros [= <- <-]. done. }
    destruct (getClaimableTokens c s (msg_sender c)) as [value|e]; simpl;
      [|discriminate].
    intros [= <- <-]. simpl.
    rewrite !sum_balances_insert. unfold uadd, usub.
    apply wrap_credit_debit.
  - intros s'. unfold claim.
    destruct (blockDiff c s (msg_sender c) <? blocksPerClaim s); [discriminate|].
    destruct (getClaimableTokens c s (msg_sender c)) as [value|e]; simpl;
      [|discriminate].
    intros [= <-]. exists value. done.
  - intros message s'. unfold sendMessage, require.
    destruct (tokensPerMessage s <=? rd (balances s) (msg_sender c)); simpl;
      [|discriminate].
    intros [= <-]. simpl. split; [|done].
    rewrite !sum_balances_insert. unfold uadd, usub.
    apply wrap_debit_credit.
Qed.

Lemma balances_sum_preserved_mod_witness :
  wrap (sum_balances (balances Room.underfunded_claimed))
    = wrap (sum_balances (balances Room.underfunded)) /\
  wrap (sum_balances (balances Room.funded_sent))
    = wrap (sum_balances (balances Room.funded_claimed)).
Proof.
  split.
  - destruct (balances_sum_preserved_mod
                (mkCtx Room.self Room.bob 200) Room.underfunded) as (H & _).
    apply (H true). vm_compute. reflexivity.
  - destruct (balances_sum_preserved_mod
                (mkCtx Room.self Room.bob 201) Room.funded_claimed) as (_ & _ & H).
    apply (H "Qm1"). vm_compute. reflexivity.
Defined.

(** * Reachable states hold values of their types *)

Lemma all_uint_insert (m : gmap address Z) k v :
  is_uint v -> all_uint m -> all_uint (<[k:=v]> m).
Proof. intros Hv Hm. by apply map_Forall_insert_2. Qed.

Lemma claim_wf c s ok s' :
  wf_state s -> claim c s = Ok (ok, s') -> wf_state s'.
Proof.
  intros Hwf. unfold claim.
  destruct (blockDiff c s (msg_sender c) <? blocksPerClaim s).
  { by intros [= <- <-]. }
  destruct (getClaimableTokens c s (msg_sender c)) as [value|e]; simpl;
    [|discriminate].
  intros [= <- <-].
  destruct Hwf as (Hb & Hl & Hrest).
  refine (conj _ (conj _ Hrest)); simpl.
  - apply all_uint_insert; [apply wrap_range|].
    apply all_uint_insert; [apply wrap_range | done].
  - apply all_uint_insert; [apply wrap_range | done].
Qed.

Lemma sendMessage_wf c s message s' :
  wf_state s -> sendMessage c s message = Ok s' -> wf_state s'.
Proof.
  intros Hwf. unfold sendMessage, require.
  destruct (tokensPerMessage s <=? rd (balances s) (msg_sender c)); simpl;
    [|discriminate].
  intros [= <-].
  destruct Hwf as (Hb & Hrest).
  refine (conj _ Hrest); simpl.
  apply all_uint_insert; [apply wrap_range|].
  apply all_uint_insert; [apply wrap_range | done].
Qed.

Lemma exec_wf c s op s' :
  wf_state s -> valid_call op -> exec c s op = Ok s' -> wf_state s'.
Proof.
  intros Hwf Hop. destruct op as [a n d y | n | | m | h]; simpl.
  - intros [= <-]. destruct Hop as [Ha _].
    destruct Hwf as (Hb & Hl & Hs & Hrest).
    refine (conj _ (conj Hl (conj Ha Hrest))); simpl.
    by apply all_uint_insert.
  - unfold changeBlocksPerClaim, require.
    destruct (bool_decide (msg_sender c = owner s)); simpl; [|discriminate].
    intros [= <-].
    destruct Hwf as (Hb & Hl & Hs & Hd & Ht & Hp).
    exact (conj Hb (conj Hl (conj Hs (conj Hd (conj Ht Hop))))).
  - destruct (claim c s) as [[ok s1]|e] eqn:E; simpl; [|discriminate].
    intros [= <-]. eapply claim_wf; eauto.
  - apply sendMessage_wf, Hwf.
  - intros [= <-]. exact Hwf.
Qed.

Lemma reachable_wf self s : reachable self s -> wf_state s.
Proof.
  induction 1 as [|s s' sender height op _ IH _ Hop Hexec].
  - apply (bool_decide_unpack _). vm_compute. exact I.
  - eapply exec_wf; eauto.
Qed.

(** ** The example room is reachable *)

Lemma reachable_after self sender height op s s' :
  reachable self s -> is_uint height -> valid_call op ->
  exec (mkCtx self sender height) s op = Ok s' ->
  reachable self s'.
Proof. apply reachable_call. Qed.

Ltac uint_const := vm_compute; split; [discriminate | reflexivity].

Lemma reachable_funded : reachable Room.self Room.funded.
Proof.
  apply (reachable_after _ Room.alice 10 (CallUsableToken 1000 "room" 0 "MSG") deployed).
  - apply reachable_deployed.
  - uint_const.
  - split; uint_const.
  - vm_compute. reflexivity.
Qed.

Lemma reachable_underfunded : reachable Room.self Room.underfunded.
Proof.
  apply (reachable_after _ Room.alice 10 (CallUsableToken 5 "room" 0 "MSG") deployed).
  - apply reachable_deployed.
  - uint_const.
  - split; uint_const.
  - vm_compute. reflexivity.
Qed.

Lemma reachable_underfunded_claimed :
  reachable Room.self Room.underfunded_claimed.
Proof.
  apply (reachable_after _ Room.bob 200 CallClaim Room.underfunded).
  - apply reachable_underfunded.
  - uint_const.
  - exact I.
  - vm_compute. reflexivity.
Qed.

Lemma reachable_no_cooldown_claimed :
  reachable Room.self Room.no_cooldown_claimed.
Proof.
  apply (reachable_after _ Room.bob 6 CallClaim Room.no_cooldown).
  - apply (reachable_after _ Room.alice 5 (CallChangeBlocksPerClaim 0) Room.funded).
    + apply reachable_funded.
    + uint_const.
    + uint_const.
    + vm_compute. reflexivity.
  - uint_const.
  - exact I.
  - vm_compute. reflexivity.
Qed.

Lemma reachable_taken_over : reachable Room.self Room.taken_over.
Proof.
  apply (reachable_after _ Room.bob 20 (CallUsableToken 0 "" 0 "") Room.funded).
  - apply reachable_funded.
  - uint_const.
  - split; uint_const.
  - vm_compute. reflexivity.
Qed.

(** * What [claim] does to the reserve (C1, C3) *)

(** [claim] throws only at the division of [getClaimableTokens]: nothing
    in it looks at the reserve. *)
Lemma claim_throws_only_on_division c s e :
  claim c s = Throw e -> e = DivisionByZero /\ blocksPerClaim s = 0.
Proof.
  unfold claim, getClaimableTokens, SafeMath.div.
  destruct (blockDiff c s (msg_sender c) <? blocksPerClaim s); [discriminate|].
  destruct (rd (lastClaimed s) (msg_sender c) =? 0); [discriminate|].
  destruct (Z.eqb_spec (blocksPerClaim s) 0); [|discriminate].
  simpl. by intros [= <-].
Qed.

Lemma claim_returns c s :
  blocksPerClaim s <> 0 -> exists r, claim c s = Ok r.
Proof.
  intros Hne. destruct (claim c s) as [r|e] eqn:E; [by exists r|].
  destruct (claim_throws_only_on_division c s e E) as [_ H0]. done.
Qed.

(** C3. With 5 tokens in the reserve and a grant of 12 due, [claim] does
    not throw: it returns [true], credits the caller with 12 and leaves the
    reserve at 5 - 12 wrapped around, i.e. 2^256 - 7. *)
Theorem claim_overdraws_reserve :
  reserveBalance (mkCtx Room.self Room.bob 200) Room.underfunded = 5 /\
  getClaimableTokens (mkCtx Room.self Room.bob 200) Room.underfunded Room.bob
    = Ok 12 /\
  claim (mkCtx Room.self Room.bob 200) Room.underfunded
    = Ok (true, Room.underfunded_claimed) /\
  balanceOf Room.underfunded_claimed Room.bob = 12 /\
  balanceOf Room.underfunded_claimed Room.self = modulus - 7.
Proof. repeat split; vm_compute; reflexivity. Qed.

(** C1. A reachable state in which the balances do not add up to
    [totalSupply]: after [UsableToken] put 5 tokens in the reserve and one
    account claimed, the accounts hold 12, the reserve holds 2^256 - 7 and
    [totalSupply] is still 5. *)
Theorem supply_not_conserved :
  reachable Room.self Room.underfunded /\
  accounts_sum (mkCtx Room.self Room.bob 200) Room.underfunded
    + reserveBalance (mkCtx Room.self Room.bob 200) Room.underfunded
    = totalSupply Room.underfunded /\
  reachable Room.self Room.underfunded_claimed /\
  totalSupply Room.underfunded_claimed = 5 /\
  accounts_sum (mkCtx Room.self Room.bob 200) Room.underfunded_claimed = 12 /\
  reserveBalance (mkCtx Room.self Room.bob 200) Room.underfunded_claimed
    = modulus - 7 /\
  accounts_sum (mkCtx Room.self Room.bob 200) Room.underfunded_claimed
    + reserveBalance (mkCtx Room.self Room.bob 200) Room.underfunded_claimed
    <> totalSupply Room.underfunded_claimed.
Proof.
  split; [apply reachable_underfunded|].
  split; [vm_compute; reflexivity|].
  split; [apply reachable_underfunded_claimed|].
  repeat split; try (vm_compute; reflexivity).
  vm_compute. discriminate.
Qed.

(** * The first claim of an account (C2) *)

(** Past the gate, an account that never claimed gets [dailyTokens]. *)
Lemma claim_fresh_past_gate c s :
  rd (lastClaimed s) (msg_sender c) = 0 ->
  blocksPerClaim s <= blockDiff c s (msg_sender c) ->
  msg_sender c <> this c ->
  exists s' : state,
    claim c s = Ok (true, s') /\
    balanceOf s' (msg_sender c)
      = uadd (balanceOf s (msg_sender c)) (dailyTokens s) /\
    getLastClaimedBlock s' (msg_sender c) = usub (block_number c) 1.
Proof.
  intros Hfresh Hgate Hne.
  rewrite (claim_gate_open c s Hgate).
  unfold getClaimableTokens. rewrite Hfresh. simpl.
  eexists. split; [reflexivity|].
  unfold balanceOf, getLastClaimedBlock. simpl.
  rewrite rd_insert_ne by done. rewrite !rd_insert_eq. done.
Qed.

(** C2. An account that never claimed, at height 50 with the cooldown at
    100: [getBlocksTillClaimable] says 0 blocks are left and
    [getClaimableTokens] says 12 tokens are due, yet [claim] returns
    [false] and grants nothing. *)
Theorem first_claim_refused_at_low_height :
  reachable Room.self Room.funded /\
  getLastClaimedBlock Room.funded Room.bob = 0 /\
  getBlocksPerClaim Room.funded = 100 /\
  getBlocksTillClaimable (mkCtx Room.self Room.bob 50) Room.funded Room.bob
    = Ok 0 /\
  getClaimableTokens (mkCtx Room.self Room.bob 50) Room.funded Room.bob
    = Ok 12 /\
  claim (mkCtx Room.self Room.bob 50) Room.funded = Ok (false, Room.funded) /\
  balanceOf (commit Room.funded
               (claim (mkCtx Room.self Room.bob 50) Room.funded) snd) Room.bob
    = 0.
Proof.
  split; [apply reachable_funded|].
  repeat split; vm_compute; reflexivity.
Qed.

(** * The owner (C4) *)

(** Every call but [UsableToken] leaves the owner alone. *)
Lemma exec_owner c s op s' :
  exec c s op = Ok s' ->
  (forall a n d y, op <> CallUsableToken a n d y) ->
  owner s' = owner s.
Proof.
  intros Hexec Hop. destruct op as [a n d y | n | | m | h]; simpl in Hexec.
  - by destruct (Hop a n d y).
  - unfold changeBlocksPerClaim, require in Hexec.
    destruct (bool_decide (msg_sender c = owner s)); simpl in Hexec;
      [|discriminate].
    by injection Hexec as <-.
  - destruct (claim c s) as [[[] s1]|e] eqn:E; simpl in Hexec; [| |discriminate].
    + injection Hexec as <-. by destruct (claim_true_inv c s s1 E) as (_&_&_&_&?&_).
    + injection Hexec as <-. unfold claim in E.
      destruct (blockDiff c s (msg_sender c) <? blocksPerClaim s);
        [by injection E as <- |].
      destruct (getClaimableTokens c s (msg_sender c)); simpl in E; discriminate.
  - unfold sendMessage, require in Hexec.
    destruct (tokensPerMessage s <=? rd (balances s) (msg_sender c));
      simpl in Hexec; [|discriminate].
    by injection Hexec as <-.
  - by injection Hexec as <-.
Qed.

(** [UsableToken] returns for every caller, in every state, and makes the
    caller the owner. *)
Lemma UsableToken_sets_owner c s a n d y :
  exists s', UsableToken c s a n d y = Ok s' /\ owner s' = msg_sender c.
Proof. eexists. split; reflexivity. Qed.

(** C4. The contract is deployed with no owner (the zero address).  alice
    calls [UsableToken] and is the owner; later bob calls [UsableToken] and
    is the owner: from then on [changeBlocksPerClaim] throws for alice and
    returns for bob. *)
Theorem owner_replaced_by_UsableToken :
  owner deployed = 0%N /\
  owner Room.funded = Room.alice /\
  UsableToken (mkCtx Room.self Room.bob 20) Room.funded 0 "" 0 ""
    = Ok Room.taken_over /\
  reachable Room.self Room.taken_over /\
  owner Room.taken_over = Room.bob /\
  changeBlocksPerClaim (mkCtx Room.self Room.alice 21) Room.taken_over 1
    = Throw RequireFailed /\
  succeeded (changeBlocksPerClaim (mkCtx Room.self Room.bob 21) Room.taken_over 1)
    = true.
Proof.
  split; [reflexivity|]. split; [reflexivity|].
  split; [vm_compute; reflexivity|].
  split; [apply reachable_taken_over|].
  repeat split; vm_compute; reflexivity.
Qed.

(** * The owner-only setting (C8) *)

Lemma getBlocksTillClaimable_no_cooldown c s a :
  blocksPerClaim s = 0 -> getBlocksTillClaimable c s a = Ok 0.
Proof.
  intros H0. rewrite getBlocksTillClaimable_eq, H0.
  pose proof (blockDiff_range c s a).
  f_equal. destruct (rd (lastClaimed s) a =? 0); lia.
Qed.

Lemma claim_no_cooldown_not_false c s s' :
  blocksPerClaim s = 0 -> claim c s <> Ok (false, s').
Proof.
  intros H0. pose proof (blockDiff_range c s (msg_sender c)) as Hr.
  rewrite claim_gate_open by lia.
  destruct (getClaimableTokens c s (msg_sender c)); simpl; discriminate.
Qed.

(** C8, counterexample. With the cooldown set to zero by the owner, an
    account that claimed once (at height 6, so that its recorded height is 5) cannot claim
    again: [getBlocksTillClaimable] returns 0 but [claim] throws on the
    division by [blocksPerClaim]. *)
Lemma zero_cooldown_second_claim_throws :
  changeBlocksPerClaim (mkCtx Room.self Room.alice 5) Room.funded 0
    = Ok Room.no_cooldown /\
  claim (mkCtx Room.self Room.bob 6) Room.no_cooldown
    = Ok (true, Room.no_cooldown_claimed) /\
  reachable Room.self Room.no_cooldown_claimed /\
  getBlocksPerClaim Room.no_cooldown_claimed = 0 /\
  getBlocksTillClaimable (mkCtx Room.self Room.bob 10)
    Room.no_cooldown_claimed Room.bob = Ok 0 /\
  claim (mkCtx Room.self Room.bob 10) Room.no_cooldown_claimed
    = Throw DivisionByZero /\
  ~ (exists r, claim (mkCtx Room.self Room.bob 10) Room.no_cooldown_claimed
               = Ok r).
Proof.
  split; [vm_compute; reflexivity|].
  split; [vm_compute; reflexivity|].
  split; [apply reachable_no_cooldown_claimed|].
  split; [reflexivity|].
  split; [vm_compute; reflexivity|].
  assert (H : claim (mkCtx Room.self Room.bob 10) Room.no_cooldown_claimed
              = Throw DivisionByZero) by (vm_compute; reflexivity).
  split; [exact H|].
  intros [r Hr]. rewrite H in Hr. discriminate.
Qed.

(** C8, amended. [changeBlocksPerClaim] called by anyone but the owner
    throws at its [require], whatever the value, and [blocksPerClaim] stays
    as it was; called by the owner it returns for every value, 0 included,
    and [blocksPerClaim] is the new value.  In every state whose
    [blocksPerClaim] is 0, [getBlocksTillClaimable] returns 0 for every
    account at every height, [claim] never returns [false], and an account
    whose recorded claim height is 0 can claim at once and is credited
    [dailyTokens]. *)
Theorem changeBlocksPerClaim_spec (c : ctx) (s : state) (newBPC : Z) :
  (msg_sender c <> owner s ->
   changeBlocksPerClaim c s newBPC = Throw RequireFailed /\
   getBlocksPerClaim (commit s (changeBlocksPerClaim c s newBPC) id)
     = getBlocksPerClaim s) /\
  (msg_sender c = owner s ->
   changeBlocksPerClaim c s newBPC = Ok (set_blocksPerClaim newBPC s) /\
   getBlocksPerClaim (commit s (changeBlocksPerClaim c s newBPC) id) = newBPC) /\
  (forall (c' : ctx) (s0 : state),
     getBlocksPerClaim s0 = 0 ->
     (forall a : address, getBlocksTillClaimable c' s0 a = Ok 0) /\
     (forall s' : state, claim c' s0 <> Ok (false, s')) /\
     (getLastClaimedBlock s0 (msg_sender c') = 0 ->
      msg_sender c' <> this c' ->
      exists s' : state,
        claim c' s0 = Ok (true, s') /\
        balanceOf s' (msg_sender c')
          = uadd (balanceOf s0 (msg_sender c')) (dailyTokens s0))).
Proof.
  unfold getBlocksPerClaim, getLastClaimedBlock.
  split; [|split].
  - intros Hne. unfold changeBlocksPerClaim.
    rewrite bool_decide_eq_false_2 by done. done.
  - intros Heq. unfold changeBlocksPerClaim.
    rewrite bool_decide_eq_true_2 by done. done.
  - intros c' s0 H0. split; [|split].
    + intros a. by apply getBlocksTillClaimable_no_cooldown.
    + intros s'. by apply claim_no_cooldown_not_false.
    + intros Hfresh Hne.
      pose proof (blockDiff_range c' s0 (msg_sender c')) as Hr.
      destruct (claim_fresh_past_gate c' s0 Hfresh) as (s' & Hs' & Hb & _);
        [lia | done |].
      by exists s'.
Qed.

Lemma changeBlocksPerClaim_spec_witness :
  changeBlocksPerClaim (mkCtx Room.self Room.bob 5) Room.funded 0
    = Throw RequireFailed /\
  changeBlocksPerClaim (mkCtx Room.self Room.alice 5) Room.funded 0
    = Ok Room.no_cooldown /\
  getBlocksTillClaimable (mkCtx Room.self Room.bob 6) Room.no_cooldown Room.bob
    = Ok 0 /\
  exists s' : state,
    claim (mkCtx Room.self Room.bob 6) Room.no_cooldown = Ok (true, s') /\
    balanceOf s' Room.bob = 12.
Proof.
  destruct (changeBlocksPerClaim_spec (mkCtx Room.self Room.bob 5) Room.funded 0)
    as (Hother & _ & _).
  destruct (changeBlocksPerClaim_spec (mkCtx Room.self Room.alice 5) Room.funded 0)
    as (_ & Howner & Hzero).
  split; [apply Hother; vm_compute; discriminate|].
  split; [apply Howner; vm_compute; reflexivity|].
  destruct (Hzero (mkCtx Room.self Room.bob 6) Room.no_cooldown)
    as (Htill & _ & Hclaim); [vm_compute; reflexivity|].
  split; [apply Htill|].
  destruct Hclaim as (s' & Hs' & Hb);
    [vm_compute; reflexivity | vm_compute; discriminate |].
  cbn [msg_sender] in Hb.
  exists s'. split; [exact Hs' | rewrite Hb; vm_compute; reflexivity].
Defined.

(** * Further properties of the contract *)

(** Case analysis of a call that returned: one case per function, two for
    [claim] (refused, granted). *)
Ltac invert_exec Hexec :=
  match type of Hexec with
  | exec ?c ?s ?op = Ok ?s' =>
    destruct op as [? ? ? ? | ? | | ? | ?];
    simpl in Hexec;
    [ unfold UsableToken in Hexec; injection Hexec as <-
    | unfold changeBlocksPerClaim, require in Hexec;
      destruct (bool_decide (msg_sender c = owner s)) eqn:Hown;
      simpl in Hexec; [injection Hexec as <- | discriminate]
    | unfold claim in Hexec;
      destruct (blockDiff c s (msg_sender c) <? blocksPerClaim s) eqn:Hgate;
      simpl in Hexec;
      [ injection Hexec as <-
      | destruct (getClaimableTokens c s (msg_sender c)) as [value|e] eqn:Hval;
        simpl in Hexec; [injection Hexec as <- | discriminate] ]
    | unfold sendMessage, require in Hexec;
      destruct (tokensPerMessage s <=? rd (balances s) (msg_sender c)) eqn:Hfee;
      simpl in Hexec; [injection Hexec as <- | discriminate]
    | unfold sendHash in Hexec; injection Hexec as <- ]
  end.

(** ** The grant schedule *)

(** X1. [getClaimableTokens] returns [dailyTokens] for a recorded height of
    0; otherwise it returns the number of whole cooldown periods in
    [block.number - lastClaimed - 1] times [dailyTokens] (the plain
    integer product at heights past the recorded one, when the product
    fits in 256 bits).  It throws in exactly one situation: a non-zero
    recorded height together with [blocksPerClaim = 0]. *)
Theorem getClaimableTokens_spec (c : ctx) (s : state) (a : address) :
  (rd (lastClaimed s) a = 0 -> getClaimableTokens c s a = Ok (dailyTokens s)) /\
  (rd (lastClaimed s) a <> 0 -> blocksPerClaim s <> 0 ->
   getClaimableTokens c s a
     = Ok (umul (blockDiff c s a / blocksPerClaim s) (dailyTokens s))) /\
  (0 < rd (lastClaimed s) a < block_number c ->
   is_uint (block_number c) ->
   0 < blocksPerClaim s -> 0 <= dailyTokens s ->
   (block_number c - rd (lastClaimed s) a - 1) / blocksPerClaim s
     * dailyTokens s < modulus ->
   getClaimableTokens c s a
     = Ok ((block_number c - rd (lastClaimed s) a - 1) / blocksPerClaim s
           * dailyTokens s)) /\
  (forall e : fault,
     getClaimableTokens c s a = Throw e <->
     e = DivisionByZero /\ rd (lastClaimed s) a <> 0 /\ blocksPerClaim s = 0).
Proof.
  unfold getClaimableTokens, SafeMath.div.
  split; [|split; [|split]].
  - intros ->. done.
  - intros Hl Hp.
    destruct (Z.eqb_spec (rd (lastClaimed s) a) 0); [done|].
    destruct (Z.eqb_spec (blocksPerClaim s) 0); done.
  - intros Hl Hh Hp Hd Hfit.
    destruct (Z.eqb_spec (rd (lastClaimed s) a) 0); [lia|].
    destruct (Z.eqb_spec (blocksPerClaim s) 0); [lia|].
    simpl. rewrite blockDiff_exact by (done || lia).
    f_equal. unfold umul, wrap. apply Z.mod_small. split; [|done].
    apply Z.mul_nonneg_nonneg; [|done].
    apply Z.div_pos; lia.
  - intros e.
    destruct (Z.eqb_spec (rd (lastClaimed s) a) 0) as [H0|Hne].
    { split; [discriminate | intros (_ & Hl & _); done]. }
    destruct (Z.eqb_spec (blocksPerClaim s) 0) as [Hp|Hp]; simpl.
    + split; [by intros [= <-] | by intros (-> & _)].
    + split; [discriminate | intros (_ & _ & ?); done].
Qed.

Lemma getClaimableTokens_spec_witness :
  getClaimableTokens (mkCtx Room.self Room.bob 450) Room.funded_claimed Room.bob
    = Ok ((450 - 199 - 1) / 100 * 12).
Proof.
  destruct (getClaimableTokens_spec
              (mkCtx Room.self Room.bob 450) Room.funded_claimed Room.bob)
    as (_ & _ & H & _).
  apply H.
  - vm_compute. split; reflexivity.
  - uint_const.
  - vm_compute. reflexivity.
  - vm_compute. discriminate.
  - vm_compute. reflexivity.
Defined.

(** X2. For an account with a non-zero recorded height, [claim] returns
    [false] exactly when [getBlocksTillClaimable] reports a positive
    number of blocks: the view and the gate of [claim] agree. *)
Theorem claim_refuses_iff_blocks_left (c : ctx) (s : state)
    (Hclaimed : rd (lastClaimed s) (msg_sender c) <> 0) :
  claim c s = Ok (false, s) <->
  exists n : Z, getBlocksTillClaimable c s (msg_sender c) = Ok n /\ 0 < n.
Proof.
  rewrite getBlocksTillClaimable_eq.
  destruct (Z.eqb_spec (rd (lastClaimed s) (msg_sender c)) 0); [done|].
  split.
  - intros Hfalse.
    destruct (Z.lt_ge_cases (blockDiff c s (msg_sender c)) (blocksPerClaim s))
      as [Hlt|Hge].
    + eexists. split; [reflexivity | lia].
    + rewrite (claim_gate_open c s Hge) in Hfalse.
      destruct (getClaimableTokens c s (msg_sender c)); simpl in Hfalse;
        discriminate.
  - intros (k & [= <-] & Hpos). apply claim_gate_closed. lia.
Qed.

Lemma claim_refuses_iff_blocks_left_witness :
  claim (mkCtx Room.self Room.bob 250) Room.funded_claimed
    = Ok (false, Room.funded_claimed) <->
  exists n : Z,
    getBlocksTillClaimable (mkCtx Room.self Room.bob 250)
      Room.funded_claimed Room.bob = Ok n /\ 0 < n.
Proof.
  apply (claim_refuses_iff_blocks_left
           (mkCtx Room.self Room.bob 250) Room.funded_claimed).
  vm_compute. discriminate.
Defined.

(** X3. After a [claim] that returned [true] at a height of at least 2,
    the cooldown starts afresh: [k] blocks later exactly
    [max(0, blocksPerClaim - k)] blocks are left, however long the caller
    had waited before claiming. *)
Theorem cooldown_restarts_in_full (c : ctx) (s s' : state) (k : Z)
    (Hclaim : claim c s = Ok (true, s'))
    (Hh : 2 <= block_number c)
    (Hk : 0 <= k)
    (Hlater : is_uint (block_number c + k)) :
  getBlocksTillClaimable (at_height c (block_number c + k)) s' (msg_sender c)
    = Ok (Z.max 0 (blocksPerClaim s - k)).
Proof.
  destruct (claim_true_inv c s s' Hclaim) as (Hlast & Hbpc & _).
  assert (Hhu : is_uint (block_number c)) by (unfold is_uint in *; lia).
  assert (Hrec : rd (lastClaimed s') (msg_sender c) = block_number c - 1).
  { rewrite Hlast. apply usub_exact; [done | | lia].
    split; [lia | apply modulus_pos]. }
  rewrite getBlocksTillClaimable_eq, Hbpc.
  rewrite blockDiff_at_height by (done || lia).
  rewrite Hrec.
  destruct (Z.eqb_spec (block_number c - 1) 0); [lia|].
  do 2 f_equal. lia.
Qed.

Lemma cooldown_restarts_in_full_witness :
  getBlocksTillClaimable (mkCtx Room.self Room.bob 230)
    Room.funded_claimed Room.bob = Ok 70.
Proof.
  apply (cooldown_restarts_in_full
           (mkCtx Room.self Room.bob 200) Room.funded Room.funded_claimed 30).
  - vm_compute. reflexivity.
  - vm_compute. discriminate.
  - vm_compute. discriminate.
  - uint_const.
Defined.

(** ** What a call can touch *)

(** X4. No call changes the balance of an account that is neither the
    caller nor the contract itself: tokens only ever move between a caller
    and the reserve. *)
Theorem third_party_balance_untouched (c : ctx) (s s' : state) (op : call)
    (a : address)
    (Hexec : exec c s op = Ok s')
    (Hcaller : a <> msg_sender c) (Hself : a <> this c) :
  balanceOf s' a = balanceOf s a.
Proof.
  unfold balanceOf. invert_exec Hexec; simpl;
    rewrite ?rd_insert_ne by done; done.
Qed.

Lemma third_party_balance_untouched_witness :
  balanceOf Room.funded_sent Room.alice = balanceOf Room.funded_claimed Room.alice.
Proof.
  apply (third_party_balance_untouched
           (mkCtx Room.self Room.bob 201) Room.funded_claimed Room.funded_sent
           (CallSendMessage "Qm1")).
  - vm_compute. reflexivity.
  - vm_compute. discriminate.
  - vm_compute. discriminate.
Defined.

(** X5. The recorded claim height of an account changes only through a
    [claim] of that very account: every call leaves the heights of all
    other accounts alone, and every call but [claim] leaves all of them
    alone. *)
Theorem lastClaimed_only_by_own_claim (c : ctx) (s s' : state) (op : call)
    (Hexec : exec c s op = Ok s') :
  (forall a : address,
     a <> msg_sender c -> getLastClaimedBlock s' a = getLastClaimedBlock s a) /\
  (op <> CallClaim -> lastClaimed s' = lastClaimed s).
Proof.
  unfold getLastClaimedBlock. invert_exec Hexec; simpl; split; try done.
  intros a0 Ha. by rewrite rd_insert_ne.
Qed.

Lemma lastClaimed_only_by_own_claim_witness :
  getLastClaimedBlock Room.funded_claimed Room.alice
    = getLastClaimedBlock Room.funded Room.alice.
Proof.
  destruct (lastClaimed_only_by_own_claim
              (mkCtx Room.self Room.bob 200) Room.funded Room.funded_claimed
              CallClaim) as [H _].
  - vm_compute. reflexivity.
  - apply H. vm_compute. discriminate.
Defined.

(** X6. Message histories are append-only: whatever the call, the history
    of every account afterwards starts with its history before; it is one
    entry longer for the caller of a [sendMessage] that returned and
    unchanged in every other case. *)
Theorem messageHistory_append_only (c : ctx) (s s' : state) (op : call)
    (a : address)
    (Hexec : exec c s op = Ok s') :
  getMessageHistory s a `prefix_of` getMessageHistory s' a /\
  length (getMessageHistory s' a)
    = (length (getMessageHistory s a)
       + match op with
         | CallSendMessage _ => if bool_decide (a = msg_sender c) then 1 else 0
         | _ => 0
         end)%nat.
Proof.
  unfold getMessageHistory. invert_exec Hexec; simpl;
    try (split; [done | lia]).
  unfold rd_list. case_bool_decide as Ha.
  - subst a. rewrite lookup_insert_eq. simpl. split.
    + by apply prefix_app_r.
    + rewrite length_app. simpl. lia.
  - rewrite lookup_insert_ne by done. split; [done | lia].
Qed.

Lemma messageHistory_append_only_witness :
  getMessageHistory Room.funded_claimed Room.bob
    `prefix_of` getMessageHistory Room.funded_sent Room.bob /\
  length (getMessageHistory Room.funded_sent Room.bob)
    = (length (getMessageHistory Room.funded_claimed Room.bob) + 1)%nat.
Proof.
  apply (messageHistory_append_only
           (mkCtx Room.self Room.bob 201) Room.funded_claimed Room.funded_sent
           (CallSendMessage "Qm1") Room.bob).
  vm_compute. reflexivity.
Defined.

(** X7. The contract has no function that writes [dailyTokens],
    [tokensPerMessage] or [version]: in every reachable state they carry
    their initialisers, 12, 3 and "MSG". *)
Theorem grant_and_fee_never_change (self : address) (s : state)
    (Hreach : reachable self s) :
  getDailyTokensNo s = 12 /\ getTokensPerMessage s = 3 /\ version s = "MSG".
Proof.
  unfold getDailyTokensNo, getTokensPerMessage.
  induction Hreach as [|s s' sender height op _ IH _ _ Hexec]; [done|].
  set (c := mkCtx self sender height) in Hexec. clearbody c.
  invert_exec Hexec; simpl; exact IH.
Qed.

Lemma grant_and_fee_never_change_witness :
  getDailyTokensNo Room.no_cooldown_claimed = 12 /\
  getTokensPerMessage Room.no_cooldown_claimed = 3 /\
  version Room.no_cooldown_claimed = "MSG".
Proof.
  apply (grant_and_fee_never_change Room.self).
  apply reachable_no_cooldown_claimed.
Defined.

(** X8. [UsableToken] overwrites the reserve and [totalSupply] with the
    given amount and keeps the balance of every other account, so right
    after it the balances add up to [totalSupply] exactly when the other
    accounts hold nothing. *)
Theorem UsableToken_overwrites_reserve (c : ctx) (s s' : state)
    (amount : Z) (tokenName : string) (decimalUnits : Z) (tokenSymbol : string)
    (Hcall : UsableToken c s amount tokenName decimalUnits tokenSymbol = Ok s') :
  reserveBalance c s' = amount /\
  totalSupply s' = amount /\
  (forall a : address, a <> this c -> balanceOf s' a = balanceOf s a) /\
  accounts_sum c s' = accounts_sum c s /\
  (sum_balances (balances s') = totalSupply s' <-> accounts_sum c s = 0).
Proof.
  unfold UsableToken in Hcall. injection Hcall as <-.
  assert (Hacc : accounts_sum c
                   (mkState (<[this c:=amount]> (balances s)) amount tokenName
                      decimalUnits tokenSymbol (version s) (msg_sender c)
                      (dailyTokens s) (tokensPerMessage s) (lastClaimed s)
                      (messageHistory s) (blocksPerClaim s) (ipfsHash s)
                      (latestMessage s) (events s))
                 = accounts_sum c s).
  { unfold accounts_sum. simpl. by rewrite delete_insert_eq. }
  split; [|split; [|split; [|split]]].
  - unfold reserveBalance. simpl. apply rd_insert_eq.
  - done.
  - intros a0 Ha. unfold balanceOf. simpl. by rewrite rd_insert_ne.
  - exact Hacc.
  - rewrite <- (ledger_total c), Hacc.
    unfold reserveBalance. simpl. rewrite rd_insert_eq. lia.
Qed.

Lemma UsableToken_overwrites_reserve_witness :
  reserveBalance (mkCtx Room.self Room.alice 300) Room.taken_over = 0 /\
  totalSupply Room.taken_over = 0.
Proof.
  destruct (UsableToken_overwrites_reserve
              (mkCtx Room.self Room.bob 20) Room.funded Room.taken_over
              0 "" 0 "") as (H1 & H2 & _).
  - vm_compute. reflexivity.
  - split; [exact H1 | exact H2].
Defined.

(** ** When the supply is conserved *)

Lemma sum_balances_nonneg (m : gmap address Z) :
  all_uint m -> 0 <= sum_balances m.
Proof.
  induction m as [|k v m Hk IH] using map_ind.
  - intros _. unfold sum_balances. by rewrite map_fold_empty.
  - intros Hm. apply map_Forall_insert in Hm as [Hv Hm]; [|done].
    rewrite sum_balances_insert. unfold rd. rewrite Hk. simpl.
    specialize (IH Hm). unfold is_uint in Hv. lia.
Qed.

(** Two distinct entries of a mapping of unsigned values are together no
    more than the sum of all of them. *)
Lemma two_balances_le_sum (m : gmap address Z) k1 k2 :
  all_uint m -> k1 <> k2 -> rd m k1 + rd m k2 <= sum_balances m.
Proof.
  intros Hm Hne.
  rewrite (sum_balances_split m k1).
  rewrite (sum_balances_split (delete k1 m) k2).
  assert (Hrd : rd (delete k1 m) k2 = rd m k2).
  { unfold rd. by rewrite lookup_delete_ne. }
  rewrite Hrd.
  assert (0 <= sum_balances (delete k2 (delete k1 m))).
  { apply sum_balances_nonneg. unfold all_uint.
    by do 2 apply map_Forall_delete. }
  lia.
Qed.

Lemma getClaimableTokens_range c s a value :
  is_uint (dailyTokens s) ->
  getClaimableTokens c s a = Ok value -> is_uint value.
Proof.
  intros Hd. unfold getClaimableTokens, SafeMath.div.
  destruct (rd (lastClaimed s) a =? 0); [by intros [= <-]|].
  destruct (blocksPerClaim s =? 0); simpl; [discriminate|].
  intros [= <-]. apply wrap_range.
Qed.

(** X9. Starting from a state whose balances add up to [totalSupply], a
    call of [claim], [sendMessage], [sendHash] or [changeBlocksPerClaim]
    by an account other than the contract keeps them so, provided that a
    claim's grant is no more than the reserve holds; in that case no
    update wraps around. *)
Theorem supply_kept_while_reserve_covers (c : ctx) (s s' : state) (op : call)
    (Hwf : wf_state s)
    (Hsum : sum_balances (balances s) = totalSupply s)
    (Hcaller : msg_sender c <> this c)
    (Hop : forall a n d y, op <> CallUsableToken a n d y)
    (Hcover : forall value : Z,
        op = CallClaim ->
        getClaimableTokens c s (msg_sender c) = Ok value ->
        value <= reserveBalance c s)
    (Hexec : exec c s op = Ok s') :
  sum_balances (balances s') = totalSupply s' /\
  accounts_sum c s' + reserveBalance c s' = totalSupply s.
Proof.
  assert (Hgoal : sum_balances (balances s') = sum_balances (balances s)
                  /\ totalSupply s' = totalSupply s).
  { destruct Hwf as (Hbal & _ & Hsup & Hd & Ht & _).
    pose proof (two_balances_le_sum (balances s) (msg_sender c) (this c)
                  Hbal Hcaller) as Hle.
    pose proof (rd_uint (balances s) (msg_sender c) Hbal) as Hb.
    pose proof (rd_uint (balances s) (this c) Hbal) as Hr.
    unfold is_uint in *.
    invert_exec Hexec; simpl; try done.
    - exfalso. by eapply Hop.
    - pose proof (getClaimableTokens_range c s _ value Hd Hval) as Hv.
      specialize (Hcover value eq_refl eq_refl). unfold reserveBalance in Hcover.
      unfold is_uint in Hv.
      split; [|done]. rewrite !sum_balances_insert.
      rewrite (rd_insert_ne _ (msg_sender c) (this c)) by done.
      unfold uadd, usub, wrap. rewrite !Z.mod_small by lia. lia.
    - apply Z.leb_le in Hfee.
      split; [|done]. rewrite !sum_balances_insert.
      rewrite (rd_insert_ne _ (msg_sender c) (this c)) by done.
      unfold uadd, usub, wrap. rewrite !Z.mod_small by lia. lia. }
  destruct Hgoal as [Hs Ht]. split.
  - by rewrite Hs, Ht.
  - by rewrite ledger_total, Hs.
Qed.

Lemma supply_kept_while_reserve_covers_witness :
  sum_balances (balances Room.funded_claimed) = totalSupply Room.funded_claimed.
Proof.
  apply (supply_kept_while_reserve_covers
           (mkCtx Room.self Room.bob 200) Room.funded Room.funded_claimed
           CallClaim).
  - apply (bool_decide_unpack _). vm_compute. exact I.
  - vm_compute. reflexivity.
  - vm_compute. discriminate.
  - discriminate.
  - intros value _ Hval. vm_compute in Hval. injection Hval as <-.
    vm_compute. discriminate.
  - vm_compute. reflexivity.
Defined.

(** X10. A [claim] that returns [true] for an account with a non-zero
    recorded height pays for at least one whole cooldown period: the
    caller (an account other than the contract) is credited
    [periods * dailyTokens], in 256-bit arithmetic, where
    [periods = (block.number - lastClaimed - 1) / blocksPerClaim >= 1]. *)
Theorem claim_pays_whole_periods (c : ctx) (s s' : state)
    (Hbpc : is_uint (blocksPerClaim s))
    (Hclaimed : rd (lastClaimed s) (msg_sender c) <> 0)
    (Hcaller : msg_sender c <> this c)
    (Hclaim : claim c s = Ok (true, s')) :
  exists periods : Z,
    periods = blockDiff c s (msg_sender c) / blocksPerClaim s /\
    1 <= periods /\
    getClaimableTokens c s (msg_sender c) = Ok (umul periods (dailyTokens s)) /\
    balanceOf s' (msg_sender c)
      = uadd (balanceOf s (msg_sender c)) (umul periods (dailyTokens s)).
Proof.
  unfold claim in Hclaim.
  destruct (Z.ltb_spec (blockDiff c s (msg_sender c)) (blocksPerClaim s))
    as [Hlt|Hge]; [discriminate|].
  destruct (getClaimableTokens c s (msg_sender c)) as [value|e] eqn:Hval;
    simpl in Hclaim; [|discriminate].
  injection Hclaim as <-.
  unfold getClaimableTokens, SafeMath.div in Hval.
  destruct (Z.eqb_spec (rd (lastClaimed s) (msg_sender c)) 0); [done|].
  destruct (Z.eqb_spec (blocksPerClaim s) 0) as [H0|Hne]; simpl in Hval;
    [discriminate|].
  injection Hval as <-.
  exists (blockDiff c s (msg_sender c) / blocksPerClaim s).
  split; [done|]. split.
  - unfold is_uint in Hbpc.
    apply Z.div_le_lower_bound; lia.
  - split; [done|]. unfold balanceOf. simpl.
    rewrite rd_insert_ne by done. by rewrite rd_insert_eq.
Qed.

Lemma claim_pays_whole_periods_witness :
  exists periods : Z,
    periods = blockDiff (mkCtx Room.self Room.bob 450) Room.funded_claimed Room.bob
              / blocksPerClaim Room.funded_claimed /\
    1 <= periods /\
    getClaimableTokens (mkCtx Room.self Room.bob 450) Room.funded_claimed Room.bob
      = Ok (umul periods (dailyTokens Room.funded_claimed)) /\
    balanceOf (Room.after Room.bob 450 CallClaim Room.funded_claimed) Room.bob
      = uadd (balanceOf Room.funded_claimed Room.bob)
             (umul periods (dailyTokens Room.funded_claimed)).
Proof.
  apply (claim_pays_whole_periods
           (mkCtx Room.self Room.bob 450) Room.funded_claimed
           (Room.after Room.bob 450 CallClaim Room.funded_claimed)).
  - uint_const.
  - vm_compute. discriminate.
  - vm_compute. discriminate.
  - vm_compute. reflexivity.
Defined.

(** ** Events, the cooldown setting and the content pointer *)

(** X11. Only a [claim] that returns [true] logs an event, and it logs
    exactly one: [Transfer(this, caller, value)] with the grant it
    credited.  Every other call that returns, [sendMessage] included
    (which moves [tokensPerMessage] to the reserve), logs nothing. *)
Theorem events_only_from_claim (c : ctx) (s s' : state) (op : call)
    (Hexec : exec c s op = Ok s') :
  (op <> CallClaim -> events s' = events s) /\
  (claim c s = Ok (false, s') -> events s' = events s) /\
  (claim c s = Ok (true, s') ->
   exists value : Z,
     getClaimableTokens c s (msg_sender c) = Ok value /\
     events s' = events s ++ [Transfer (this c) (msg_sender c) value]).
Proof.
  split; [|split].
  - intros Hop. invert_exec Hexec; simpl; done.
  - intros Hfalse. unfold claim in Hfalse.
    destruct (blockDiff c s (msg_sender c) <? blocksPerClaim s);
      [by injection Hfalse as <- |].
    destruct (getClaimableTokens c s (msg_sender c)); simpl in Hfalse;
      discriminate.
  - intros Htrue. unfold claim in Htrue.
    destruct (blockDiff c s (msg_sender c) <? blocksPerClaim s);
      [discriminate|].
    destruct (getClaimableTokens c s (msg_sender c)) as [value|e];
      simpl in Htrue; [|discriminate].
    injection Htrue as <-. by exists value.
Qed.

Lemma events_only_from_claim_witness :
  events Room.funded_sent = events Room.funded_claimed.
Proof.
  destruct (events_only_from_claim
              (mkCtx Room.self Room.bob 201) Room.funded_claimed Room.funded_sent
              (CallSendMessage "Qm1")) as [H _].
  - vm_compute. reflexivity.
  - apply H. discriminate.
Defined.

(** X12. A call changes [blocksPerClaim] only if it is a
    [changeBlocksPerClaim] made by the current owner. *)
Theorem cooldown_changed_only_by_owner (c : ctx) (s s' : state) (op : call)
    (Hexec : exec c s op = Ok s')
    (Hchanged : getBlocksPerClaim s' <> getBlocksPerClaim s) :
  msg_sender c = owner s /\
  op = CallChangeBlocksPerClaim (getBlocksPerClaim s').
Proof.
  unfold getBlocksPerClaim in *.
  invert_exec Hexec; simpl in *; try done.
  apply bool_decide_eq_true_1 in Hown. done.
Qed.

Lemma cooldown_changed_only_by_owner_witness :
  Room.alice = owner Room.funded /\
  CallChangeBlocksPerClaim 0
    = CallChangeBlocksPerClaim (getBlocksPerClaim Room.no_cooldown).
Proof.
  apply (cooldown_changed_only_by_owner
           (mkCtx Room.self Room.alice 5) Room.funded Room.no_cooldown
           (CallChangeBlocksPerClaim 0)).
  - vm_compute. reflexivity.
  - vm_compute. discriminate.
Defined.

(** X13. [sendHash] is independent of every other function: doing a call
    other than [sendHash] after a [sendHash], or before it, gives the same
    outcome, the same fault when the call throws and the same state when
    it returns. *)
Theorem sendHash_commutes (c1 c2 : ctx) (s : state) (_hash : string)
    (op : call)
    (Hop : forall h : string, op <> CallSendHash h) :
  (let! s1 := sendHash c1 s _hash in exec c2 s1 op)
  = (let! s2 := exec c2 s op in sendHash c1 s2 _hash).
Proof.
  unfold sendHash. simpl.
  destruct op as [a n d y | n | | m | h]; simpl.
  - done.
  - unfold changeBlocksPerClaim, require. simpl.
    destruct (bool_decide (msg_sender c2 = owner s)); done.
  - unfold claim, blockDiff, getClaimableTokens, SafeMath.div. simpl.
    destruct (usub (usub (block_number c2)
                      (rd (lastClaimed s) (msg_sender c2))) 1
              <? blocksPerClaim s); [done|].
    destruct (rd (lastClaimed s) (msg_sender c2) =? 0); [done|].
    destruct (blocksPerClaim s =? 0); done.
  - unfold sendMessage, require. simpl.
    destruct (tokensPerMessage s <=? rd (balances s) (msg_sender c2)); done.
  - by destruct (Hop h).
Qed.

Lemma sendHash_commutes_witness :
  (let! s1 := sendHash (mkCtx Room.self Room.alice 201) Room.funded_claimed "Qm2" in
   exec (mkCtx Room.self Room.bob 201) s1 (CallSendMessage "Qm1"))
  = (let! s2 := exec (mkCtx Room.self Room.bob 201) Room.funded_claimed
                  (CallSendMessage "Qm1") in
     sendHash (mkCtx Room.self Room.alice 201) s2 "Qm2").
Proof.
  apply (sendHash_commutes (mkCtx Room.self Room.alice 201)
           (mkCtx Room.self Room.bob 201) Room.funded_claimed "Qm2"
           (CallSendMessage "Qm1")).
  discriminate.
Defined.
